(** * xorlist: a shallow embedding of the container of src/xorlist.cpp

    The development follows the class template [xorlist<T, Allocator>] of
    src/xorlist.cpp (the revision that carries the node type, [clear] and
    [reverse]); where src/xorlist.ixx differs on a function that is used
    below, the variant is given in [Module Ixx].

    Addresses are integers ([Z]).  A call either returns, lets an exception
    propagate, ends the program in std::terminate (an exception met a
    noexcept specification), has undefined behaviour, or does not finish
    within the fuel it was given. *)

From Stdlib Require Import ZArith String List Lia.
From stdpp Require Import gmap.

Open Scope Z_scope.

(** ** Outcomes of a call *)

Inductive exn : Type :=
| logic_error (what : string)   (* std::logic_error(what) *)
| bad_alloc.                    (* failure signalled by Allocator::allocate *)

Inductive outcome (A : Type) : Type :=
| Normal (a : A)     (* the call returns [a] *)
| Throws (e : exn)   (* the exception [e] leaves the call *)
| Terminated         (* std::terminate was called *)
| Undefined          (* undefined behaviour *)
| OutOfFuel.         (* still running when the fuel is used up *)

Arguments Normal {A} a.
Arguments Throws {A} e.
Arguments Terminated {A}.
Arguments Undefined {A}.
Arguments OutOfFuel {A}.

#[global] Instance outcome_ret : MRet outcome := fun A a => Normal a.
#[global] Instance outcome_bind : MBind outcome := fun A B k m =>
  match m with
  | Normal a => k a
  | Throws e => Throws e
  | Terminated => Terminated
  | Undefined => Undefined
  | OutOfFuel => OutOfFuel
  end.

(** The operand of every [throw] in the sources. *)
Definition not_yet_implemented : exn := logic_error "Not yet implemented".

(** Member functions run on an object of type [S]: the object is threaded
    through the call and is still there when an exception propagates. *)
Definition M (S A : Type) : Type := S -> outcome A * S.

Definition ret {S A} (a : A) : M S A := fun s => (Normal a, s).
Definition throw {S A} (e : exn) : M S A := fun s => (Throws e, s).
Definition undefined {S A} : M S A := fun s => (Undefined, s).
Definition out_of_fuel {S A} : M S A := fun s => (OutOfFuel, s).
Definition lift {S A} (o : outcome A) : M S A := fun s => (o, s).

Definition bind {S A B} (m : M S A) (k : A -> M S B) : M S B := fun s =>
  match m s with
  | (Normal a, s') => k a s'
  | (Throws e, s') => (Throws e, s')
  | (Terminated, s') => (Terminated, s')
  | (Undefined, s') => (Undefined, s')
  | (OutOfFuel, s') => (OutOfFuel, s')
  end.

(** A function declared [noexcept(b)]: when [b] holds, an exception that
    would leave its body ends the program instead. *)
Definition noexcept_ {S A} (b : bool) (m : M S A) : M S A := fun s =>
  match m s with
  | (Throws e, s') => if b then (Terminated, s') else (Throws e, s')
  | r => r
  end.

Declare Scope call_scope.
Delimit Scope call_scope with call.
Notation "x <- m ;; k" := (bind m (fun x => k))
  (at level 100, m at next level, right associativity) : call_scope.
Notation "m ;; k" := (bind m (fun _ => k))
  (at level 100, right associativity) : call_scope.

(** ** The two iterator classes

    Both classes hold one data member, [pointer ptr]; [ptr++] and [ptr--]
    are pointer arithmetic, one element ([sizeof_T] address units) up or
    down.  Every operator is given as a function from the object to the
    pair (returned value, object after the call). *)

Module iterator.

Record t : Type := make { ptr : Z }.

(* auto operator++() { ptr++; return *this; } *)
Definition preinc (sizeof_T : Z) (this : t) : t * t :=
  let this' := make (ptr this + sizeof_T) in (this', this').

(* auto operator++(int) { auto tmp = *this; ++( *this); return tmp; } *)
Definition postinc (sizeof_T : Z) (this : t) : t * t :=
  let tmp := this in
  let this' := snd (preinc sizeof_T this) in (tmp, this').

(* auto operator--() { ptr--; return *this; } *)
Definition predec (sizeof_T : Z) (this : t) : t * t :=
  let this' := make (ptr this - sizeof_T) in (this', this').

(* auto operator--(int) { auto tmp = *this; --( *this); return tmp; } *)
Definition postdec (sizeof_T : Z) (this : t) : t * t :=
  let tmp := this in
  let this' := snd (predec sizeof_T this) in (tmp, this').

(* bool operator==(const iterator &rhs) const { return ptr == rhs.ptr; } *)
Definition eqb (this rhs : t) : bool := ptr this =? ptr rhs.

(* std::next(it): a copy of [it] advanced once with ++ *)
Definition next (sizeof_T : Z) (it : t) : t := fst (preinc sizeof_T it).

(** [n] applications of ++ to the same object. *)
Fixpoint advance (sizeof_T : Z) (n : nat) (this : t) : t :=
  match n with
  | O => this
  | S n' => advance sizeof_T n' (snd (preinc sizeof_T this))
  end.


End iterator.

Module const_iterator.

Record t : Type := make { ptr : Z }.

(* auto operator++() { auto tmp = *this; ++( *this); return tmp; }
   [++( *this)] is this very operator. *)
Fixpoint preinc (fuel : nat) (sizeof_T : Z) (this : t) : outcome (t * t) :=
  match fuel with
  | O => OutOfFuel
  | S fuel' =>
      let tmp := this in
      r ← preinc fuel' sizeof_T this;
      Normal (tmp, snd r)
  end.

(** The same operator as a big-step relation: [returns this r this'] when
    the call on [this] returns [r] and leaves the object as [this']. *)
Inductive preinc_returns : t -> t -> t -> Prop :=
| preinc_body this r this' :
    preinc_returns this r this' ->     (* ++( *this) has returned *)
    preinc_returns this this this'.    (* return tmp *)

(* auto operator++(int) { ptr++; return *this; } *)
Definition postinc (sizeof_T : Z) (this : t) : t * t :=
  let this' := make (ptr this + sizeof_T) in (this', this').

(* auto operator--() { ptr--; return *this; } *)
Definition predec (sizeof_T : Z) (this : t) : t * t :=
  let this' := make (ptr this - sizeof_T) in (this', this').

(* auto operator--(int) { auto tmp = *this; --( *this); return tmp; } *)
Definition postdec (sizeof_T : Z) (this : t) : t * t :=
  let tmp := this in
  let this' := snd (predec sizeof_T this) in (tmp, this').

(* bool operator==(const const_iterator &rhs) { return ptr == rhs.ptr; } *)
Definition eqb (this rhs : t) : bool := ptr this =? ptr rhs.

End const_iterator.

(** ** Element type, object layout, allocator *)

(** What the member functions below ask of [value_type]: the content a
    default-initialised element has (for a scalar type, whatever its
    storage holds), and the built-in [--] and [++] that
    [reverse] applies to elements ([decr v] and [incr v] are the values
    stored by [v--] and [v++]).  Comparison with [==] and [!=] is decidable
    equality. *)
Class Element (T : Type) : Type := {
  default_init : T;
  decr : T -> T;
  incr : T -> T
}.

(** Sizes used by pointer arithmetic: [sizeof(value_type)] for [pointer],
    [sizeof(_node<T>)] for [__node_pointer]. *)
Class Layout : Type := {
  sizeof_T : Z;
  sizeof_node : Z;
  sizeof_T_pos : 0 < sizeof_T;
  sizeof_node_pos : 0 < sizeof_node
}.

(** The allocator collaborator, as far as a caller can observe it: the
    number of further [allocate(1)] requests it serves before it signals
    failure, and the trait
    [std::allocator_traits<Allocator>::is_always_equal::value] of its type
    (true for std::allocator, the default). *)
Record Allocator : Type := { available : nat; is_always_equal : bool }.

Definition allocation_fails (a : Allocator) : bool :=
  match available a with O => true | S _ => false end.

(** ** Nodes and the list handle *)

(* template <class T> struct _node { __node_pointer _link; T _value; ... }; *)
Record _node (T : Type) : Type := mk_node { _link : Z; _value : T }.
Arguments mk_node {T} _ _.
Arguments _link {T} _.
Arguments _value {T} _.

(* std::pair<size_type, __node_allocator> __size_alloc_;
   pointer front0 = nullptr, front1 = nullptr, back0 = nullptr, back1 = nullptr;
   Allocator alloc;  size_type _size{};  _node<value_type> _end;
   [this_end] is the address of the member [_end]; [nodes] is the storage
   handed out by the node allocator, by address. *)
Record xorlist (T : Type) : Type := mk_xorlist {
  __size_alloc_ : N * Allocator;
  front0 : Z; front1 : Z; back0 : Z; back1 : Z;
  alloc : Allocator;
  _size : N;
  _end : _node T;
  this_end : Z;
  nodes : gmap Z (_node T)
}.
Arguments mk_xorlist {T} _ _ _ _ _ _ _ _ _ _.
Arguments __size_alloc_ {T} _.
Arguments front0 {T} _.
Arguments front1 {T} _.
Arguments back0 {T} _.
Arguments back1 {T} _.
Arguments alloc {T} _.
Arguments _size {T} _.
Arguments _end {T} _.
Arguments this_end {T} _.
Arguments nodes {T} _.

Local Open Scope call_scope.

Section Container.
Context {T : Type} `{EqDecision T} `{Element T} `{Layout}.

Definition set_size (n : N) (l : xorlist T) : xorlist T :=
  mk_xorlist (__size_alloc_ l) (front0 l) (front1 l) (back0 l) (back1 l) (alloc l)
             n (_end l) (this_end l) (nodes l).
Definition set_end (e : _node T) (l : xorlist T) : xorlist T :=
  mk_xorlist (__size_alloc_ l) (front0 l) (front1 l) (back0 l) (back1 l) (alloc l)
             (_size l) e (this_end l) (nodes l).
Definition set_nodes (m : gmap Z (_node T)) (l : xorlist T) : xorlist T :=
  mk_xorlist (__size_alloc_ l) (front0 l) (front1 l) (back0 l) (back1 l) (alloc l)
             (_size l) (_end l) (this_end l) m.

(** *** Memory seen from a list: its own sentinel and the allocated nodes *)

Definition load (l : xorlist T) (a : Z) : option (_node T) :=
  if a =? this_end l then Some (_end l) else nodes l !! a.

Definition store (a : Z) (n : _node T) (l : xorlist T) : xorlist T :=
  if a =? this_end l then set_end n l else set_nodes (<[a := n]> (nodes l)) l.

(** Access through a pointer that designates no live node is undefined. *)
Definition read (a : Z) : M (xorlist T) (_node T) := fun l =>
  match load l a with
  | Some n => (Normal n, l)
  | None => (Undefined, l)
  end.

Definition write_link (a : Z) (v : Z) : M (xorlist T) unit :=
  n <- read a ;; fun l => (Normal tt, store a (mk_node v (_value n)) l).

Definition write_value (a : Z) (v : T) : M (xorlist T) unit :=
  n <- read a ;; fun l => (Normal tt, store a (mk_node (_link n) v) l).

(* reference operator*() const noexcept { return *ptr; }, read *)
Definition deref (it : iterator.t) : M (xorlist T) T :=
  n <- read (iterator.ptr it) ;; ret (_value n).

Definition value_at (l : xorlist T) (it : iterator.t) : outcome T :=
  match load l (iterator.ptr it) with
  | Some n => Normal (_value n)
  | None => Undefined
  end.

(* __node_alloc_traits::deallocate(__na, __np, 1): only storage that came
   from the allocator can be given back *)
Definition deallocate (a : Z) : M (xorlist T) unit := fun l =>
  match nodes l !! a with
  | Some _ => (Normal tt, set_nodes (delete a (nodes l)) l)
  | None => (Undefined, l)
  end.

(** *** Construction *)

(* _node() : _link(_self()) {}   -- [self] is the address of the node *)
Definition node_ctor (self : Z) : _node T := mk_node self default_init.

(* xorlist() noexcept(...) {}  and  explicit xorlist(const allocator_type &alloc) : alloc(alloc) {}
   for the object whose member [_end] lies at [addr]; [__size_alloc_] is
   value-initialised and holds a default-constructed node allocator [na] *)
Definition xorlist_ctor (a na : Allocator) (addr : Z) : xorlist T :=
  mk_xorlist (0%N, na) 0 0 0 0 a 0%N (node_ctor addr) addr ∅.

(* __node_allocator &__node_alloc() noexcept { return __size_alloc_.second; } *)
Definition __node_alloc (l : xorlist T) : Allocator := snd (__size_alloc_ l).

(* allocator_type get_allocator() const noexcept { return allocator_type(__node_alloc()); } *)
Definition get_allocator (l : xorlist T) : Allocator := __node_alloc l.

(** *** Iterators and capacity *)

(* iterator end() noexcept { return iterator(end); }
   [end] stands for the sentinel member [_end]: the iterator is positioned
   on its address *)
Definition end_ (l : xorlist T) : iterator.t := iterator.make (this_end l).

(* const_iterator end() const noexcept { return const_iterator(end); } *)
Definition end_const (l : xorlist T) : const_iterator.t :=
  const_iterator.make (this_end l).

(* iterator begin() noexcept { iterator(end()++, this); }
   the body has no return statement: the result is the value of its
   expression, the iterator that the post-increment [end()++] returns (the
   iterator classes have no member for the second argument [this]) *)
Definition begin (l : xorlist T) : iterator.t :=
  fst (iterator.postinc sizeof_T (end_ l)).

(* const_iterator begin() const noexcept { const_iterator(end()++, this); } *)
Definition begin_const (l : xorlist T) : const_iterator.t :=
  fst (const_iterator.postinc sizeof_T (end_const l)).

(* [[nodiscard]] bool empty() const noexcept { return _size == 0; } *)
Definition empty (l : xorlist T) : bool := (_size l =? 0)%N.

(* size_type size() const noexcept { return _size; } *)
Definition size (l : xorlist T) : N := _size l.

(** *** Modifiers whose body is
      throw std::logic_error::logic_error("Not yet implemented");
    The parameters are those of the source; a range or an initializer
    list is the list of its elements. *)

Definition insert (pos : const_iterator.t) (value : T)
  : M (xorlist T) iterator.t := throw not_yet_implemented.
Definition insert_move (pos : const_iterator.t) (value : T)
  : M (xorlist T) iterator.t := throw not_yet_implemented.
Definition insert_n (pos : const_iterator.t) (count : N) (value : T)
  : M (xorlist T) iterator.t := throw not_yet_implemented.
Definition insert_range (pos : const_iterator.t) (rng : list T)
  : M (xorlist T) iterator.t := throw not_yet_implemented.
(* iterator insert(const_iterator pos, std::initializer_list<value_type> ilist)
     { return insert(pos, ilist.begin(), ilist.end()); } *)
Definition insert_ilist (pos : const_iterator.t) (ilist : list T)
  : M (xorlist T) iterator.t := insert_range pos ilist.
Definition emplace (pos : const_iterator.t) (args : T)
  : M (xorlist T) iterator.t := throw not_yet_implemented.
Definition erase (pos : const_iterator.t)
  : M (xorlist T) iterator.t := throw not_yet_implemented.
Definition erase_range (first last : const_iterator.t)
  : M (xorlist T) iterator.t := throw not_yet_implemented.
Definition push_back (value : T) : M (xorlist T) unit :=
  throw not_yet_implemented.
Definition push_back_move (value : T) : M (xorlist T) unit :=
  throw not_yet_implemented.
Definition emplace_back (args : T) : M (xorlist T) Z :=
  throw not_yet_implemented.
Definition pop_back : M (xorlist T) unit := throw not_yet_implemented.
Definition push_front (value : T) : M (xorlist T) unit :=
  throw not_yet_implemented.
Definition push_front_move (value : T) : M (xorlist T) unit :=
  throw not_yet_implemented.
Definition emplace_front (args : T) : M (xorlist T) Z :=
  throw not_yet_implemented.
Definition pop_front : M (xorlist T) unit := throw not_yet_implemented.
Definition resize (count : N) : M (xorlist T) unit :=
  throw not_yet_implemented.
Definition resize_value (count : N) (value : T) : M (xorlist T) unit :=
  throw not_yet_implemented.

(** Operations on two lists run on the pair ( *this, other). *)

(* void swap(xorlist &other)
     noexcept(std::allocator_traits<Allocator>::is_always_equal::value) {
     throw std::logic_error::logic_error("Not yet implemented");
   } *)
Definition swap : M (xorlist T * xorlist T) unit := fun s =>
  noexcept_ (is_always_equal (alloc (fst s))) (throw not_yet_implemented) s.
Definition splice (pos : const_iterator.t)
  : M (xorlist T * xorlist T) unit := throw not_yet_implemented.
Definition splice_one (pos it : const_iterator.t)
  : M (xorlist T * xorlist T) unit := throw not_yet_implemented.
Definition splice_range (pos first last : const_iterator.t)
  : M (xorlist T * xorlist T) unit := throw not_yet_implemented.
(* void splice(const_iterator pos, xorlist &&other) { splice(pos, other); }
   and likewise for the other two rvalue overloads *)
Definition splice_rvalue (pos : const_iterator.t)
  : M (xorlist T * xorlist T) unit := splice pos.
Definition splice_one_rvalue (pos it : const_iterator.t)
  : M (xorlist T * xorlist T) unit := splice_one pos it.
Definition splice_range_rvalue (pos first last : const_iterator.t)
  : M (xorlist T * xorlist T) unit := splice_range pos first last.

Definition sort_comp (comp : T -> T -> bool) : M (xorlist T) unit :=
  throw not_yet_implemented.
(* void sort() { sort(std::less<value_type>()); } *)
Definition sort (less : T -> T -> bool) : M (xorlist T) unit :=
  sort_comp less.

(** *** clear *)

(* inline void __unlink_nodes(_node<T> *__f, _node<T> *__l) noexcept {
     __f->_link = __f;
     __l->_link = __l;
   } *)
Definition __unlink_nodes (__f __l : Z) : M (xorlist T) unit :=
  write_link __f __f ;; write_link __l __l.

(* while (__f != __l) {
     __node_pointer __np = __f->_as_node();     -- the node itself
     __f = __f->_link;
     __node_alloc_traits::destroy(__na, std::addressof(__np->_value));
     __node_alloc_traits::deallocate(__na, __np, 1);
   } *)
Fixpoint clear_loop (fuel : nat) (__f __l : Z) : M (xorlist T) unit :=
  if __f =? __l then ret tt
  else match fuel with
       | O => out_of_fuel
       | S fuel' =>
           n <- read __f ;;
           let __np := __f in
           let __f' := _link n in
           (* destroy: the element's destructor, which leaves the list's
              memory as it is *)
           deallocate __np ;;
           clear_loop fuel' __f' __l
       end.

(* void clear() noexcept {
     if (!empty()) {
       __node_allocator &__na = __node_alloc();
       __node_pointer __f = _end._link;
       __node_pointer __l = __f;
       __unlink_nodes(__f, __l--);       -- passes the old __l, then steps
       _size = 0;                           __l one node down
       while (__f != __l) { ... }
     }
   } *)
Definition clear_body (fuel : nat) : M (xorlist T) unit := fun l =>
  if negb (empty l) then
    (let __f := _link (_end l) in
     let __l := __f in
     __unlink_nodes __f __l ;;
     let __l := __l - sizeof_node in
     (fun l' => (Normal tt, set_size 0%N l')) ;;
     clear_loop fuel __f __l) l
  else (Normal tt, l).

Definition clear (fuel : nat) : M (xorlist T) unit :=
  noexcept_ true (clear_body fuel).

(** *** reverse *)

(* ( *i)-- and ( *i)++ on the element at address [a]: the element is
   replaced, the old value is the result *)
Definition post_decr (a : Z) : M (xorlist T) T :=
  n <- read a ;; write_value a (decr (_value n)) ;; ret (_value n).
Definition post_incr (a : Z) : M (xorlist T) T :=
  n <- read a ;; write_value a (incr (_value n)) ;; ret (_value n).

(* std::swap(( *i)--, ( *i)++): the operands are evaluated, the left one
   first; the two results that are exchanged are temporaries *)
Definition swap_post_decr_incr (a : Z) : M (xorlist T) unit :=
  x <- post_decr a ;; y <- post_incr a ;; ret tt.

(* *i = ( *i)--;  the right operand is evaluated before the store *)
Definition assign_post_decr (a : Z) : M (xorlist T) unit :=
  v <- post_decr a ;; write_value a v.

(* for (iterator i = begin(); *i != *e;) {
     std::swap(( *i)--, ( *i)++);
     *i = ( *i)--;
   } *)
Fixpoint reverse_loop (fuel : nat) (i e : iterator.t) : M (xorlist T) unit :=
  vi <- deref i ;;
  ve <- deref e ;;
  if bool_decide (vi <> ve) then
    match fuel with
    | O => out_of_fuel
    | S fuel' =>
        swap_post_decr_incr (iterator.ptr i) ;;
        assign_post_decr (iterator.ptr i) ;;
        reverse_loop fuel' i e
    end
  else ret tt.

(* void reverse() noexcept {
     if (_size > 1) {
       iterator e = end();
       for (iterator i = begin(); *i != *e;) { ... }
       std::swap(( *e)--, ( *e)++);
     }
   } *)
Definition reverse_body (fuel : nat) : M (xorlist T) unit := fun l =>
  if (1 <? _size l)%N then
    (let e := end_ l in
     reverse_loop fuel (begin l) e ;;
     swap_post_decr_incr (iterator.ptr e)) l
  else (Normal tt, l).

Definition reverse (fuel : nat) : M (xorlist T) unit :=
  noexcept_ true (reverse_body fuel).

(** *** unique *)

(* for (; j != e && p( *i, *j); ++j) ;      -- the position [j] stops at *)
Fixpoint unique_scan (fuel : nat) (p : T -> T -> bool) (l : xorlist T)
         (i j e : iterator.t) : outcome iterator.t :=
  if iterator.eqb j e then Normal j
  else
    vi ← value_at l i;
    vj ← value_at l j;
    if p vi vj then
      match fuel with
      | O => OutOfFuel
      | S fuel' => unique_scan fuel' p l i (snd (iterator.preinc sizeof_T j)) e
      end
    else Normal j.

(* [splice] takes const_iterator positions; [unique] passes it iterators *)
Definition to_const (it : iterator.t) : const_iterator.t :=
  const_iterator.make (iterator.ptr it).

(* for (iterator i = begin(), e = end(); i != e;) {
     iterator j = std::next(i);
     for (; j != e && p( *i, *j); ++j) ;
     if (++i != j) {
       deleted_nodes.splice(deleted_nodes.end(), *this, i, j);
       i = j;
     }
   }
   run on the pair (deleted_nodes, *this), the order [splice] wants *)
Fixpoint unique_loop (fuel : nat) (p : T -> T -> bool) (i e : iterator.t)
  : M (xorlist T * xorlist T) unit :=
  if iterator.eqb i e then ret tt
  else match fuel with
       | O => out_of_fuel
       | S fuel' =>
           j <- (fun s => (unique_scan fuel' p (snd s) i
                             (iterator.next sizeof_T i) e, s)) ;;
           let i' := snd (iterator.preinc sizeof_T i) in
           if negb (iterator.eqb i' j) then
             d_end <- (fun s => (Normal (end_const (fst s)), s)) ;;
             splice_range d_end (to_const i') (to_const j) ;;
             unique_loop fuel' p j e
           else unique_loop fuel' p i' e
       end.

(* template <class BinaryPredicate> size_type unique(BinaryPredicate p) {
     xorlist<value_type, Allocator> deleted_nodes(get_allocator());
     for (...) { ... }
     return deleted_nodes.size();
   }
   [tmp] is the address of the sentinel of the local [deleted_nodes],
   whose destructor runs [clear] when the call is left *)
Definition unique_pred (fuel : nat) (p : T -> T -> bool) (tmp : Z)
  : M (xorlist T) N := fun l =>
  let deleted_nodes := xorlist_ctor (get_allocator l) (__node_alloc l) tmp in
  match unique_loop fuel p (begin l) (end_ l) (deleted_nodes, l) with
  | (r, (d, l')) =>
      let result := (_ ← r; Normal (size d)) in
      match clear fuel d with
      | (Normal _, _) => (result, l')
      | (Throws e, _) => (Throws e, l')
      | (Terminated, _) => (Terminated, l')
      | (Undefined, _) => (Undefined, l')
      | (OutOfFuel, _) => (OutOfFuel, l')
      end
  end.

(* size_type unique() { return unique(std::equal_to<value_type>()); } *)
Definition unique (fuel : nat) (tmp : Z) : M (xorlist T) N :=
  unique_pred fuel (fun a b => bool_decide (a = b)) tmp.

(** *** Constructors that insert *)

(* for (; count > 0; --count) push_back(value); *)
Fixpoint fill_loop (count : nat) (value : T) : M (xorlist T) unit :=
  match count with
  | O => ret tt
  | S count' => push_back value ;; fill_loop count' value
  end.

(* xorlist(size_type count, const value_type &value,
           const Allocator &alloc = Allocator()) : alloc(alloc) { ... } *)
Definition xorlist_ctor_fill (count : N) (value : T) (a na : Allocator) (addr : Z)
  : outcome unit * xorlist T :=
  fill_loop (N.to_nat count) value (xorlist_ctor a na addr).

(* for (i = init.begin(), e = init.end(); i != e; ++i) push_back( *i); *)
Fixpoint init_loop (init : list T) : M (xorlist T) unit :=
  match init with
  | [] => ret tt
  | x :: init' => push_back x ;; init_loop init'
  end.

(* xorlist(std::initializer_list<value_type> init,
           const Allocator &alloc = Allocator()) : alloc(alloc) { ... } *)
Definition xorlist_ctor_ilist (init : list T) (a na : Allocator) (addr : Z)
  : outcome unit * xorlist T :=
  init_loop init (xorlist_ctor a na addr).

End Container.

(** ** The public interface as a transition system *)

Section Machine.
Context {T : Type} `{EqDecision T} `{Element T} `{Layout}.

(** One call of a member function on a list, with its arguments; the
    loops of [clear], [reverse] and [unique] get their fuel here. *)
Inductive op : Type :=
| Insert (pos : const_iterator.t) (value : T)
| InsertMove (pos : const_iterator.t) (value : T)
| InsertN (pos : const_iterator.t) (count : N) (value : T)
| InsertRange (pos : const_iterator.t) (rng : list T)
| InsertIlist (pos : const_iterator.t) (ilist : list T)
| Emplace (pos : const_iterator.t) (args : T)
| Erase (pos : const_iterator.t)
| EraseRange (first last : const_iterator.t)
| PushBack (value : T)
| PushBackMove (value : T)
| EmplaceBack (args : T)
| PopBack
| PushFront (value : T)
| PushFrontMove (value : T)
| EmplaceFront (args : T)
| PopFront
| Resize (count : N)
| ResizeValue (count : N) (value : T)
| Swap (other : xorlist T)
| Splice (pos : const_iterator.t) (other : xorlist T)
| SpliceOne (pos : const_iterator.t) (other : xorlist T) (it : const_iterator.t)
| SpliceRange (pos : const_iterator.t) (other : xorlist T)
              (first last : const_iterator.t)
| SortComp (comp : T -> T -> bool)
| Sort (less : T -> T -> bool)
| Clear (fuel : nat)
| Reverse (fuel : nat)
| Unique (fuel : nat) (tmp : Z).

Definition discard {S A} (m : M S A) : M S unit := x <- m ;; ret tt.

(** A call on ( *this, other), seen from *this. *)
Definition with_other {A} (m : M (xorlist T * xorlist T) A) (other : xorlist T)
  : M (xorlist T) unit := fun l =>
  match m (l, other) with
  | (r, (l', _)) => (_ ← r; Normal tt, l')
  end.

Definition exec (o : op) : M (xorlist T) unit :=
  match o with
  | Insert pos v => discard (insert pos v)
  | InsertMove pos v => discard (insert_move pos v)
  | InsertN pos n v => discard (insert_n pos n v)
  | InsertRange pos r => discard (insert_range pos r)
  | InsertIlist pos il => discard (insert_ilist pos il)
  | Emplace pos a => discard (emplace pos a)
  | Erase pos => discard (erase pos)
  | EraseRange f l => discard (erase_range f l)
  | PushBack v => push_back v
  | PushBackMove v => push_back_move v
  | EmplaceBack a => discard (emplace_back a)
  | PopBack => pop_back
  | PushFront v => push_front v
  | PushFrontMove v => push_front_move v
  | EmplaceFront a => discard (emplace_front a)
  | PopFront => pop_front
  | Resize n => resize n
  | ResizeValue n v => resize_value n v
  | Swap other => with_other swap other
  | Splice pos other => with_other (splice pos) other
  | SpliceOne pos other it => with_other (splice_one pos it) other
  | SpliceRange pos other f l => with_other (splice_range pos f l) other
  | SortComp comp => sort_comp comp
  | Sort less => sort less
  | Clear fuel => clear fuel
  | Reverse fuel => reverse fuel
  | Unique fuel tmp => discard (unique fuel tmp)
  end.



(** The call came back to its caller, by return or by exception. *)
Definition comes_back {A} (r : outcome A) : Prop :=
  match r with
  | Normal _ | Throws _ => True
  | Terminated | Undefined | OutOfFuel => False
  end.

(** Lists a program can hold: built by the default (or allocator)
    constructor at a non-null address, then used through [op]. *)
Inductive reachable : xorlist T -> Prop :=
| reachable_ctor a na addr :
    addr <> 0 -> reachable (xorlist_ctor a na addr)
| reachable_exec o l r l' :
    reachable l -> exec o l = (r, l') -> comes_back r -> reachable l'.

(** *** The data model of the specification, for comparison

    [spec_codec]: "given current and from, produce current.link XOR from";
    [spec_increment]: "next = codec(current, from); new cursor is
    (next, current)"; [spec_link_invariant l addrs]: the ring
    sentinel, addrs, sentinel satisfies "N.link = address(P) XOR
    address(Q)" at every node, the sentinel included. *)

Definition spec_codec (l : xorlist T) (current from : Z) : option Z :=
  n ← load l current; Some (Z.lxor (_link n) from).

Definition spec_increment (l : xorlist T) (c : Z * Z) : option (Z * Z) :=
  next ← spec_codec l (fst c) (snd c); Some (next, fst c).

Definition link_is (l : xorlist T) (a : Z) (v : Z) : bool :=
  match load l a with
  | Some n => _link n =? v
  | None => false
  end.

Fixpoint spec_links_ok (l : xorlist T) (p c : Z) (rest : list Z) (closing : Z)
  : bool :=
  match rest with
  | [] => link_is l c (Z.lxor p closing)
  | q :: rest' => link_is l c (Z.lxor p q) && spec_links_ok l c q rest' closing
  end.

Definition spec_link_invariant (l : xorlist T) (addrs : list Z) : bool :=
  let s := this_end l in
  spec_links_ok l (default s (last addrs)) s addrs s.

(** A list that holds the elements at [addrs], in this order. *)
Definition spec_valid (l : xorlist T) (addrs : list Z) : bool :=
  spec_link_invariant l addrs
  && (_size l =? N.of_nat (length addrs))%N
  && forallb (fun a => bool_decide (is_Some (nodes l !! a))) addrs.

End Machine.

Arguments op T : clear implicits.

(** ** Concrete element type, layout and lists used in examples *)

(* int, with -- and ++ away from the ends of its range *)
#[global] Instance int_element : Element Z :=
  {| default_init := 0; decr := Z.pred; incr := Z.succ |}.

(* sizeof(int) = 4, sizeof(_node<int>) = 16 *)
Definition lp64_int : Layout :=
  {| sizeof_T := 4; sizeof_node := 16;
     sizeof_T_pos := eq_refl; sizeof_node_pos := eq_refl |}.

(** An allocator that can still serve requests. *)
Definition plenty : Allocator := {| available := 8; is_always_equal := true |}.

(** An allocator of a type whose instances may compare unequal. *)
Definition stateful : Allocator := {| available := 8; is_always_equal := false |}.

(** The default-constructed list at address 256. *)
Definition fresh : xorlist Z := xorlist_ctor plenty plenty 256.

(** The list 10, 20: sentinel at 256, the elements at 64 and 32. *)
Definition two_elements : xorlist Z :=
  mk_xorlist (0%N, plenty) 0 0 0 0 plenty 2%N
             (mk_node (Z.lxor 32 64) 0) 256
             (<[64 := mk_node (Z.lxor 256 32) 10]>
                (<[32 := mk_node (Z.lxor 64 256) 20]> ∅)).






(** ** src/xorlist.ixx, where it differs on a function used below *)

Module Ixx.
(* void reverse() noexcept { throw std::logic_error::logic_error("Not yet implemented"); } *)
Definition reverse {T : Type} : M (xorlist T) unit :=
  noexcept_ true (throw not_yet_implemented).
End Ixx.

(** ** Further member functions of src/xorlist.cpp *)

Section Interface.
Context {T : Type} `{EqDecision T} `{Element T} `{Layout}.

(** *** assign *)

(* for (; count > 0 && i != e; --count, (void)++i)
     *i = value;
   the count that is left and the position reached *)
Fixpoint assign_fill_loop (count : nat) (value : T) (i e : iterator.t)
  : M (xorlist T) (nat * iterator.t) :=
  match count with
  | O => ret (O, i)
  | S count' =>
      if iterator.eqb i e then ret (count, i)
      else write_value (iterator.ptr i) value ;;
           assign_fill_loop count' value (snd (iterator.preinc sizeof_T i)) e
  end.

(* void assign(size_type count, const value_type &value) {
     iterator i = begin();
     iterator e = end();
     for (...) ...
     if (i == e)
       insert(e, count, value);
     else
       erase(i, e);
   } *)
Definition assign (count : N) (value : T) : M (xorlist T) unit := fun l =>
  let e := end_ l in
  (r <- assign_fill_loop (N.to_nat count) value (begin l) e ;;
   if iterator.eqb (snd r) e
   then discard (insert_n (to_const e) (N.of_nat (fst r)) value)
   else discard (erase_range (to_const (snd r)) (to_const e))) l.

(* for (; first != last && i != e; ++first, (void)++i)
     *i = *first;
   the part of the range that is left and the position reached *)
Fixpoint assign_copy_loop (rng : list T) (i e : iterator.t)
  : M (xorlist T) (list T * iterator.t) :=
  match rng with
  | [] => ret ([], i)
  | x :: rng' =>
      if iterator.eqb i e then ret (rng, i)
      else write_value (iterator.ptr i) x ;;
           assign_copy_loop rng' (snd (iterator.preinc sizeof_T i)) e
  end.

(* template <class InputIt, ...> void assign(InputIt first, InputIt last) {
     iterator i = begin();
     iterator e = end();
     for (...) ...
     if (i == e)
       insert(e, first, last);
     else
       erase(i, e);
   } *)
Definition assign_range (rng : list T) : M (xorlist T) unit := fun l =>
  let e := end_ l in
  (r <- assign_copy_loop rng (begin l) e ;;
   if iterator.eqb (snd r) e
   then discard (insert_range (to_const e) (fst r))
   else discard (erase_range (to_const (snd r)) (to_const e))) l.

(* void assign(std::initializer_list<value_type> ilist) { assign(ilist.begin(), ilist.end()); } *)
Definition assign_ilist (ilist : list T) : M (xorlist T) unit :=
  assign_range ilist.

(* xorlist &operator=(std::initializer_list<value_type> ilist) {
     assign(ilist.begin(), ilist.end());
     return *this;
   } *)
Definition operator_assign_ilist (ilist : list T) : M (xorlist T) unit :=
  assign_range ilist.

(** *** remove_if, erase_if *)

(* for (; j != e && p( *j); ++j) ;      -- the position [j] stops at *)
Fixpoint remove_if_scan (fuel : nat) (p : T -> bool) (l : xorlist T)
         (j e : iterator.t) : outcome iterator.t :=
  if iterator.eqb j e then Normal j
  else
    vj ← value_at l j;
    if p vj then
      match fuel with
      | O => OutOfFuel
      | S fuel' => remove_if_scan fuel' p l (snd (iterator.preinc sizeof_T j)) e
      end
    else Normal j.

(* for (iterator i = begin(), e = end(); i != e;) {
     if (p( *i)) {
       iterator j = std::next(i);
       for (; j != e && p( *j); ++j) ;
       deleted_nodes.splice(deleted_nodes.end(), *this, i, j);
       i = j;
       if (i != e)
         ++i;
     } else
       ++i;
   }
   run on the pair (deleted_nodes, *this) *)
Fixpoint remove_if_loop (fuel : nat) (p : T -> bool) (i e : iterator.t)
  : M (xorlist T * xorlist T) unit :=
  if iterator.eqb i e then ret tt
  else match fuel with
       | O => out_of_fuel
       | S fuel' =>
           vi <- (fun s => (value_at (snd s) i, s)) ;;
           if p vi then
             j <- (fun s => (remove_if_scan fuel' p (snd s)
                               (iterator.next sizeof_T i) e, s)) ;;
             d_end <- (fun s => (Normal (end_const (fst s)), s)) ;;
             splice_range d_end (to_const i) (to_const j) ;;
             remove_if_loop fuel' p
               (if negb (iterator.eqb j e)
                then snd (iterator.preinc sizeof_T j) else j) e
           else remove_if_loop fuel' p (snd (iterator.preinc sizeof_T i)) e
       end.

(* template <class UnaryPredicate> size_type remove_if(UnaryPredicate p) {
     xorlist<value_type, Allocator> deleted_nodes(get_allocator());
     for (...) { ... }
     return deleted_nodes.size();
   }
   [tmp] is the address of the sentinel of the local [deleted_nodes],
   whose destructor runs [clear] when the call is left *)
Definition remove_if (fuel : nat) (p : T -> bool) (tmp : Z)
  : M (xorlist T) N := fun l =>
  let deleted_nodes := xorlist_ctor (get_allocator l) (__node_alloc l) tmp in
  match remove_if_loop fuel p (begin l) (end_ l) (deleted_nodes, l) with
  | (r, (d, l')) =>
      let result := (_ ← r; Normal (size d)) in
      match clear fuel d with
      | (Normal _, _) => (result, l')
      | (Throws e, _) => (Throws e, l')
      | (Terminated, _) => (Terminated, l')
      | (Undefined, _) => (Undefined, l')
      | (OutOfFuel, _) => (OutOfFuel, l')
      end
  end.

(* template <class value_type, class Alloc, class Pred>
   size_type erase_if(xorlist<value_type, Alloc> &c, Pred pred) { return c.remove_if(pred); } *)
Definition erase_if (fuel : nat) (pred : T -> bool) (tmp : Z)
  : M (xorlist T) N := remove_if fuel pred tmp.

(** *** Copy and move construction *)

(* const_reference operator*() const noexcept { return ptr; }
   read as the element [ptr] designates, as iterator::operator* has it *)
Definition const_value_at (l : xorlist T) (it : const_iterator.t) : outcome T :=
  match load l (const_iterator.ptr it) with
  | Some n => Normal (_value n)
  | None => Undefined
  end.

(* for (const_iterator i = other.begin(), e = other.end(); i != e; ++i)
     push_back( *i); *)
Fixpoint copy_loop (fuel : nat) (other : xorlist T) (i e : const_iterator.t)
  : M (xorlist T) unit :=
  if const_iterator.eqb i e then ret tt
  else
    v <- lift (const_value_at other i) ;;
    push_back v ;;
    match fuel with
    | O => out_of_fuel
    | S fuel' =>
        r <- lift (const_iterator.preinc fuel' sizeof_T i) ;;
        copy_loop fuel' other (snd r) e
    end.

(* xorlist(const xorlist &other) { for (...) push_back( *i); }
   xorlist(const xorlist &other, const Allocator &alloc) : alloc(alloc) { for (...) push_back( *i); }
   the object under construction has its member [_end] at [addr] *)
Definition xorlist_copy_ctor (fuel : nat) (other : xorlist T)
           (a na : Allocator) (addr : Z) : outcome unit * xorlist T :=
  copy_loop fuel other (begin_const other) (end_const other)
            (xorlist_ctor a na addr).

(* xorlist(xorlist &&other) noexcept(std::is_nothrow_move_constructible<T>::value) {
     splice(end(), other);
   }
   [nothrow_move] is the value of the trait; the result is the pair
   (object under construction, other) *)
Definition xorlist_move_ctor (nothrow_move : bool) (other : xorlist T)
           (a na : Allocator) (addr : Z)
  : outcome unit * (xorlist T * xorlist T) :=
  let this := xorlist_ctor a na addr in
  noexcept_ nothrow_move (splice (to_const (end_ this))) (this, other).

(** *** Comparison *)




(** *** merge *)

(* template <class Compare> void merge(xorlist &other, Compare comp) { throw ...; } *)
Definition merge_comp (comp : T -> T -> bool) : M (xorlist T * xorlist T) unit :=
  throw not_yet_implemented.
(* void merge(xorlist &other) { merge(other, std::less<value_type>()); } *)
Definition merge (less : T -> T -> bool) : M (xorlist T * xorlist T) unit :=
  merge_comp less.
(* void merge(xorlist &&other) { merge(other); } *)
Definition merge_rvalue (less : T -> T -> bool) : M (xorlist T * xorlist T) unit :=
  merge less.
(* template <class Compare> void merge(xorlist &&other, Compare comp) { merge(other, comp); } *)
Definition merge_rvalue_comp (comp : T -> T -> bool)
  : M (xorlist T * xorlist T) unit := merge_comp comp.

End Interface.

(** ** The wider interface as a transition system *)

Section WiderMachine.
Context {T : Type} `{EqDecision T} `{Element T} `{Layout}.

(** A call of [op], or of one of the further member functions. *)
Inductive call : Type :=
| Core (o : op T)
| Assign (count : N) (value : T)
| AssignRange (rng : list T)
| AssignIlist (ilist : list T)
| OperatorAssignIlist (ilist : list T)
| RemoveIf (fuel : nat) (p : T -> bool) (tmp : Z)
| EraseIf (fuel : nat) (p : T -> bool) (tmp : Z)
| UniquePred (fuel : nat) (q : T -> T -> bool) (tmp : Z)
| Merge (less : T -> T -> bool) (other : xorlist T)
| MergeRvalue (less : T -> T -> bool) (other : xorlist T)
| MergeComp (comp : T -> T -> bool) (other : xorlist T)
| MergeRvalueComp (comp : T -> T -> bool) (other : xorlist T).

Definition exec_call (c : call) : M (xorlist T) unit :=
  match c with
  | Core o => exec o
  | Assign count value => assign count value
  | AssignRange rng => assign_range rng
  | AssignIlist ilist => assign_ilist ilist
  | OperatorAssignIlist ilist => operator_assign_ilist ilist
  | RemoveIf fuel p tmp => discard (remove_if fuel p tmp)
  | EraseIf fuel p tmp => discard (erase_if fuel p tmp)
  | UniquePred fuel q tmp => discard (unique_pred fuel q tmp)
  | Merge less other => with_other (merge less) other
  | MergeRvalue less other => with_other (merge_rvalue less) other
  | MergeComp comp other => with_other (merge_comp comp) other
  | MergeRvalueComp comp other => with_other (merge_rvalue_comp comp) other
  end.

(** Lists a program can hold: built by any constructor that returns, at a
    non-null address, then used through [call]. *)
Inductive reachable_wide : xorlist T -> Prop :=
| wide_ctor a na addr :
    addr <> 0 -> reachable_wide (xorlist_ctor a na addr)
| wide_ctor_fill count value a na addr l :
    addr <> 0 ->
    xorlist_ctor_fill count value a na addr = (Normal tt, l) ->
    reachable_wide l
| wide_ctor_ilist init a na addr l :
    addr <> 0 ->
    xorlist_ctor_ilist init a na addr = (Normal tt, l) ->
    reachable_wide l
| wide_copy_ctor fuel other a na addr l :
    addr <> 0 ->
    reachable_wide other ->
    xorlist_copy_ctor fuel other a na addr = (Normal tt, l) ->
    reachable_wide l
| wide_move_ctor nothrow_move other a na addr l other' :
    addr <> 0 ->
    reachable_wide other ->
    xorlist_move_ctor nothrow_move other a na addr = (Normal tt, (l, other')) ->
    reachable_wide l
| wide_exec c l r l' :
    reachable_wide l -> exec_call c l = (r, l') -> comes_back r ->
    reachable_wide l'.

(** The nodes [addrs], none of them the sentinel or [stop], each linking to
    the next and the last one to [stop]: a chain as the loop of [clear]
    walks it. *)
Fixpoint next_chain (l : xorlist T) (addrs : list Z) (stop : Z) : bool :=
  match addrs with
  | [] => true
  | a :: rest =>
      negb (a =? this_end l) && negb (a =? stop)
      && match nodes l !! a with
         | Some n => _link n =? hd stop rest
         | None => false
         end
      && next_chain l rest stop
  end.

End WiderMachine.

Arguments call T : clear implicits.

(** Sentinel at 256; the node at 64 links to the node at 32, which links to
    the sentinel. *)
Definition linked_two : xorlist Z :=
  mk_xorlist (0%N, plenty) 0 0 0 0 plenty 2%N
             (mk_node 64 0) 256
             (<[64 := mk_node 32 10]> (<[32 := mk_node 256 20]> ∅)).

(** * Properties *)

(** ** Iterators *)

Lemma const_preinc_out_of_fuel fuel sz it :
  const_iterator.preinc fuel sz it = OutOfFuel.
Proof.
  induction fuel as [|fuel IH]; simpl.
  - reflexivity.
  - rewrite IH. reflexivity.
Qed.

Lemma const_preinc_no_derivation it r it' :
  const_iterator.preinc_returns it r it' -> False.
Proof. induction 1; assumption. Qed.

(** C10. [const_iterator::operator++()] never returns, whatever the iterator:
    its body copies the iterator and calls the same operator on the same
    object again, so every budget of nested calls is used up and the
    big-step relation of the operator has no derivation.  The body that
    advances the pointer sits in the post-increment operator instead, which
    therefore returns the advanced iterator (as [iterator]'s pre-increment
    does), while the two decrement operators kept their places:
    pre-decrement returns the moved iterator and post-decrement the old
    one. *)
Theorem const_iterator_preincrement_diverges (sz : Z) (it : const_iterator.t) :
  (forall fuel, const_iterator.preinc fuel sz it = OutOfFuel)
  /\ (forall r it', ~ const_iterator.preinc_returns it r it')
  /\ const_iterator.ptr (fst (const_iterator.postinc sz it))
     = iterator.ptr (fst (iterator.preinc sz (iterator.make (const_iterator.ptr it))))
  /\ fst (const_iterator.postinc sz it) = snd (const_iterator.postinc sz it)
  /\ fst (const_iterator.predec sz it) = snd (const_iterator.predec sz it)
  /\ fst (const_iterator.postdec sz it) = it
  /\ snd (const_iterator.postdec sz it) = snd (const_iterator.predec sz it).
Proof.
  split; [intros fuel; apply const_preinc_out_of_fuel|].
  split; [intros r it' Hr; exact (const_preinc_no_derivation _ _ _ Hr)|].
  repeat split.
Qed.

Lemma iterator_advance_ptr sz n it :
  iterator.ptr (iterator.advance sz n it) = iterator.ptr it + Z.of_nat n * sz.
Proof.
  revert it; induction n as [|n IH]; intros it.
  - simpl. lia.
  - cbn [iterator.advance]. rewrite IH. simpl. lia.
Qed.

(** C1, as the code has it.  The iterator is a cursor of one address: the
    increment adds the size of one element to that address and the
    decrement subtracts it, neither reads a link field, the decrement
    undoes the increment (it is not the same operation), the post-forms
    return the old cursor, [n] increments from a position [p] stand on
    [p + n * sizeof(T)], and two iterators are equal iff their addresses
    are. *)
Theorem iterator_is_single_address_cursor `{Layout} (it : iterator.t) :
  iterator.preinc sizeof_T it
    = (iterator.make (iterator.ptr it + sizeof_T),
       iterator.make (iterator.ptr it + sizeof_T))
  /\ iterator.postinc sizeof_T it
    = (it, iterator.make (iterator.ptr it + sizeof_T))
  /\ iterator.predec sizeof_T it
    = (iterator.make (iterator.ptr it - sizeof_T),
       iterator.make (iterator.ptr it - sizeof_T))
  /\ iterator.postdec sizeof_T it
    = (it, iterator.make (iterator.ptr it - sizeof_T))
  /\ snd (iterator.predec sizeof_T (snd (iterator.preinc sizeof_T it))) = it
  /\ iterator.eqb (fst (iterator.predec sizeof_T it))
                  (fst (iterator.preinc sizeof_T it)) = false
  /\ (forall n, iterator.ptr (iterator.advance sizeof_T n it)
                = iterator.ptr it + Z.of_nat n * sizeof_T)
  /\ (forall it', iterator.eqb it it' = true <-> iterator.ptr it = iterator.ptr it').
Proof.
  pose proof sizeof_T_pos as Hpos.
  destruct it as [p]. repeat split.
  - simpl. f_equal. lia.
  - unfold iterator.eqb; simpl. apply Z.eqb_neq. lia.
  - intros n. apply iterator_advance_ptr.
  - unfold iterator.eqb. apply Z.eqb_eq.
  - unfold iterator.eqb. apply Z.eqb_eq.
Qed.

(** ** The list *)

Section Properties.
Context {T : Type} `{EqDecision T} `{Element T} `{Layout}.

Lemma begin_is_end (l : xorlist T) : begin l = end_ l.
Proof. reflexivity. Qed.

Lemma iterator_eqb_refl (it : iterator.t) : iterator.eqb it it = true.
Proof. apply Z.eqb_refl. Qed.


Lemma load_sentinel (l : xorlist T) : load l (this_end l) = Some (_end l).
Proof. unfold load. rewrite Z.eqb_refl. reflexivity. Qed.

(** [clear] on a list whose count is zero does nothing. *)
Lemma clear_of_empty fuel (l : xorlist T) :
  empty l = true -> clear fuel l = (Normal tt, l).
Proof. intros He. unfold clear, noexcept_, clear_body. rewrite He. reflexivity. Qed.



Lemma noexcept_of_returning {S A} b (m : M S A) s a s' :
  m s = (Normal a, s') -> noexcept_ b m s = (Normal a, s').
Proof. intros Hm. unfold noexcept_. rewrite Hm. reflexivity. Qed.


(** [reverse] on a list of at most one element does nothing. *)
Lemma reverse_of_small fuel (l : xorlist T) :
  (_size l <= 1)%N -> reverse fuel l = (Normal tt, l).
Proof.
  intros Hs. apply noexcept_of_returning. unfold reverse_body.
  destruct (1 <? _size l)%N eqn:E; [apply N.ltb_lt in E; lia|reflexivity].
Qed.


Lemma bind_normal {S A B} (m : M S A) (k : A -> M S B) s a s' :
  m s = (Normal a, s') -> bind m k s = k a s'.
Proof. intros Hm. unfold bind. rewrite Hm. reflexivity. Qed.









(** [unique] finds [begin() == end()], runs no iteration, and returns the
    size of the still empty [deleted_nodes]. *)
Lemma unique_pred_returns_zero fuel p tmp (l : xorlist T) :
  unique_pred fuel p tmp l = (Normal 0%N, l).
Proof.
  unfold unique_pred. rewrite begin_is_end.
  assert (Hloop : forall s, unique_loop fuel p (end_ l) (end_ l) s = (Normal tt, s)).
  { intros s. destruct fuel; simpl; rewrite iterator_eqb_refl; reflexivity. }
  rewrite Hloop. rewrite clear_of_empty by reflexivity. reflexivity.
Qed.

(** Every call leaves a list whose count is zero as it is. *)
Lemma exec_on_empty (o : op T) (l : xorlist T) :
  _size l = 0%N -> snd (exec o l) = l.
Proof.
  intros Hs. destruct o; try reflexivity.
  - (* swap *)
    unfold exec, with_other, swap, noexcept_, throw; simpl.
    destruct (is_always_equal (alloc l)); reflexivity.
  - (* clear *)
    simpl. rewrite clear_of_empty; [reflexivity|].
    unfold empty. rewrite Hs. reflexivity.
  - (* reverse *)
    simpl. rewrite reverse_of_small; [reflexivity|lia].
  - (* unique *)
    simpl. unfold discard, bind, unique. rewrite unique_pred_returns_zero.
    reflexivity.
Qed.



(** What every reachable list looks like. *)
Lemma reachable_shape (l : xorlist T) :
  reachable l ->
  exists a na addr, addr <> 0 /\ l = xorlist_ctor a na addr.
Proof.
  induction 1 as [a na addr Hne|o l r l' Hl IH Hex Hr].
  - exists a, na, addr. split; [exact Hne|reflexivity].
  - destruct IH as (a & na & addr & Hne & ->).
    exists a, na, addr. split; [exact Hne|].
    pose proof (exec_on_empty o (xorlist_ctor a na addr) eq_refl) as Hid.
    rewrite Hex in Hid. simpl in Hid. exact Hid.
Qed.

End Properties.

Section Claims.
Context {T : Type} `{EqDecision T} `{Element T} `{Layout}.

Lemma load_store_same a n (l : xorlist T) : load (store a n l) a = Some n.
Proof.
  unfold store, load. destruct (a =? this_end l) eqn:E; simpl; rewrite E.
  - reflexivity.
  - apply lookup_insert_eq.
Qed.

Lemma this_end_store a n (l : xorlist T) : this_end (store a n l) = this_end l.
Proof. unfold store. destruct (a =? this_end l); reflexivity. Qed.

(** [__unlink_nodes(f, f)], as [clear] calls it, leaves in the live node
    [f] the address [f] itself. *)
Lemma unlink_nodes_self_link f n (l : xorlist T) :
  load l f = Some n ->
  fst (__unlink_nodes f f l) = Normal tt
  /\ load (snd (__unlink_nodes f f l)) f = Some (mk_node f (_value n)).
Proof.
  intros Hf.
  assert (Hw : forall (l0 : xorlist T) (n0 : _node T), load l0 f = Some n0 ->
            write_link f f l0 = (Normal tt, store f (mk_node f (_value n0)) l0)).
  { intros l0 n0 Hl0. unfold write_link, bind, read. rewrite Hl0. reflexivity. }
  unfold __unlink_nodes.
  rewrite (bind_normal _ _ _ _ _ (Hw l n Hf)).
  rewrite (Hw _ _ (load_store_same f _ l)). simpl.
  split; [reflexivity|apply load_store_same].
Qed.

(** C2, as the code has it.  Every reachable list is empty and owns no
    element node, so there is no interior node; its sentinel's link field
    holds the sentinel's own, non-null address, as the node constructor
    left it, and not the exclusive or of its two neighbours' addresses
    (which is 0 when both are the sentinel).  Every call of the interface
    leaves such a list as it is, and so keeps this. *)
Theorem reachable_sentinel_holds_own_address (l : xorlist T) :
  reachable l ->
  _link (_end l) = this_end l
  /\ this_end l <> 0
  /\ Z.lxor (this_end l) (this_end l) = 0
  /\ _size l = 0%N
  /\ nodes l = ∅
  /\ (forall o : op T, snd (exec o l) = l)
  /\ fst (__unlink_nodes (this_end l) (this_end l) l) = Normal tt
  /\ load (snd (__unlink_nodes (this_end l) (this_end l) l)) (this_end l)
     = Some (mk_node (this_end l) (_value (_end l))).
Proof.
  intros Hl.
  pose proof (unlink_nodes_self_link _ _ l (load_sentinel l)) as [Hu1 Hu2].
  destruct (reachable_shape l Hl) as (a & na & addr & Hne & ->).
  repeat split; try assumption.
  - apply Z.lxor_nilpotent.
  - intros o. apply exec_on_empty. reflexivity.
Qed.

Local Abbreviation NYI := (Throws (logic_error "Not yet implemented")).

(** C3, as the code has it.  Each of insert (all overloads), emplace, erase
    (both overloads), push_back, emplace_back, pop_back, push_front,
    emplace_front, pop_front, resize (both overloads), splice (all
    overloads) and sort with a comparator throws
    std::logic_error("Not yet implemented") on every list and for every
    argument, and the list (for splice: both lists) is then exactly as
    before the call.  swap has the same body under a noexcept
    specification: the exception reaches the caller when the allocator type
    is not always equal, and otherwise the program is terminated; both lists
    are untouched in either case.  Hence no list a program can hold ever
    has an element. *)
Theorem structural_mutators_throw_not_yet_implemented
        (l other : xorlist T) (pos first last it : const_iterator.t)
        (value : T) (count : N) (rng : list T) (comp : T -> T -> bool) :
  insert pos value l = (NYI, l)
  /\ insert_move pos value l = (NYI, l)
  /\ insert_n pos count value l = (NYI, l)
  /\ insert_range pos rng l = (NYI, l)
  /\ insert_ilist pos rng l = (NYI, l)
  /\ emplace pos value l = (NYI, l)
  /\ erase pos l = (NYI, l)
  /\ erase_range first last l = (NYI, l)
  /\ push_back value l = (NYI, l)
  /\ push_back_move value l = (NYI, l)
  /\ emplace_back value l = (NYI, l)
  /\ pop_back l = (NYI, l)
  /\ push_front value l = (NYI, l)
  /\ push_front_move value l = (NYI, l)
  /\ emplace_front value l = (NYI, l)
  /\ pop_front l = (NYI, l)
  /\ resize count l = (NYI, l)
  /\ resize_value count value l = (NYI, l)
  /\ swap (l, other)
     = (if is_always_equal (alloc l) then Terminated else NYI, (l, other))
  /\ splice pos (l, other) = (NYI, (l, other))
  /\ splice_rvalue pos (l, other) = (NYI, (l, other))
  /\ splice_one pos it (l, other) = (NYI, (l, other))
  /\ splice_one_rvalue pos it (l, other) = (NYI, (l, other))
  /\ splice_range pos first last (l, other) = (NYI, (l, other))
  /\ splice_range_rvalue pos first last (l, other) = (NYI, (l, other))
  /\ sort_comp comp l = (NYI, l)
  /\ (forall l' : xorlist T, reachable l' -> size l' = 0%N /\ nodes l' = ∅).
Proof.
  repeat (split;
          [first [reflexivity
                 |unfold swap, noexcept_, throw; simpl;
                  destruct (is_always_equal (alloc l)); reflexivity]|]).
  intros l' Hl'. destruct (reachable_shape l' Hl') as (a & na & addr & _ & ->).
  split; reflexivity.
Qed.



(** C6, as the code has it.  Every insertion of a single element (insert
    and emplace at a position, push_front, push_back, emplace_front,
    emplace_back) throws std::logic_error("Not yet implemented"), whether
    or not the allocator could serve a request; the failure that reaches
    the caller is not the allocator's, and the list, its allocator
    included, is exactly as before the call. *)
Theorem single_insertions_throw_and_keep_list
        (l : xorlist T) (pos : const_iterator.t) (value : T) :
  insert pos value l = (Throws not_yet_implemented, l)
  /\ insert_move pos value l = (Throws not_yet_implemented, l)
  /\ emplace pos value l = (Throws not_yet_implemented, l)
  /\ push_front value l = (Throws not_yet_implemented, l)
  /\ push_front_move value l = (Throws not_yet_implemented, l)
  /\ emplace_front value l = (Throws not_yet_implemented, l)
  /\ push_back value l = (Throws not_yet_implemented, l)
  /\ push_back_move value l = (Throws not_yet_implemented, l)
  /\ emplace_back value l = (Throws not_yet_implemented, l)
  /\ not_yet_implemented <> bad_alloc
  /\ allocation_fails (alloc (snd (push_back value l)))
     = allocation_fails (alloc l).
Proof. repeat split. discriminate. Qed.

(** C7, as the code has it.  [splice(pos, other)], for an lvalue and for
    an rvalue [other], throws std::logic_error("Not yet implemented");
    both lists are exactly as before the call, so no element is
    transferred, [other] keeps its size and its nodes, and no value is
    copied or moved. *)
Theorem splice_throws_and_keeps_both_lists
        (pos : const_iterator.t) (l other : xorlist T) :
  splice pos (l, other) = (Throws not_yet_implemented, (l, other))
  /\ splice_rvalue pos (l, other) = (Throws not_yet_implemented, (l, other))
  /\ size (snd (snd (splice pos (l, other)))) = size other
  /\ nodes (snd (snd (splice pos (l, other)))) = nodes other
  /\ size (fst (snd (splice pos (l, other)))) = size l
  /\ nodes (fst (snd (splice pos (l, other)))) = nodes l.
Proof. repeat split. Qed.






End Claims.

(** ** The claims on concrete lists *)

Section Examples.
#[local] Existing Instance lp64_int.

Lemma fresh_reachable : reachable fresh.
Proof. apply reachable_ctor. discriminate. Qed.

(** C1, the claim on the code: in the list 10, 20 (sentinel 256, elements at
    64 and 32) the codec takes the cursor (64, 256) to (32, 64), while the
    iterator at 64 is incremented to address 68; and [begin()] stands on
    the sentinel, not on the first element.  On the default-constructed
    list the codec applied at the sentinel yields 0, the increment 260. *)
Lemma increment_lands_off_the_codec_successor :
  spec_valid two_elements [64; 32] = true
  /\ spec_increment two_elements (64, 256) = Some (32, 64)
  /\ iterator.preinc sizeof_T (iterator.make 64)
     = (iterator.make 68, iterator.make 68)
  /\ (68 =? 32) = false
  /\ begin two_elements = iterator.make 256
  /\ iterator.advance sizeof_T 1 (begin two_elements) = iterator.make 260
  /\ spec_increment fresh (256, 256) = Some (0, 256)
  /\ iterator.preinc sizeof_T (end_ fresh) = (iterator.make 260, iterator.make 260).
Proof. repeat split. Qed.

(** C2, the claim on the code: the default-constructed list at 256 is
    reachable and empty, its sentinel's link is 256, the exclusive or of the
    sentinel's address with itself is 0, and the link invariant of the
    specification fails on it. *)
Lemma default_list_breaks_link_invariant :
  reachable fresh
  /\ size fresh = 0%N
  /\ _link (_end fresh) = 256
  /\ Z.lxor 256 256 = 0
  /\ spec_link_invariant fresh [] = false.
Proof. split; [exact fresh_reachable|repeat split]. Qed.

(** C2 at the default-constructed list at 256. *)
Lemma default_list_sentinel_holds_256 :
  reachable fresh
  /\ (_link (_end fresh) = this_end fresh
      /\ this_end fresh <> 0
      /\ Z.lxor (this_end fresh) (this_end fresh) = 0
      /\ _size fresh = 0%N
      /\ nodes fresh = ∅
      /\ (forall o : op Z, snd (exec o fresh) = fresh)
      /\ fst (__unlink_nodes (this_end fresh) (this_end fresh) fresh) = Normal tt
      /\ load (snd (__unlink_nodes (this_end fresh) (this_end fresh) fresh))
              (this_end fresh)
         = Some (mk_node (this_end fresh) (_value (_end fresh)))).
Proof.
  split; [exact fresh_reachable|].
  exact (reachable_sentinel_holds_own_address fresh fresh_reachable).
Defined.

(** C3, the claim on the code: swapping two default-constructed lists whose
    allocator type is always equal (std::allocator) does not let a
    logic_error reach the caller: the program is terminated. *)
Lemma swap_ends_in_terminate :
  is_always_equal (alloc fresh) = true
  /\ swap (fresh, (xorlist_ctor plenty plenty 512 : xorlist Z))
     = (Terminated, (fresh, xorlist_ctor plenty plenty 512))
  /\ swap ((xorlist_ctor stateful stateful 256 : xorlist Z), xorlist_ctor stateful stateful 512)
     = (Throws (logic_error "Not yet implemented"),
        (xorlist_ctor stateful stateful 256, xorlist_ctor stateful stateful 512)).
Proof. repeat split. Qed.



(** C6, the claim on the code: on the default-constructed list, whose
    allocator can serve requests, [push_back(5)] throws
    std::logic_error("Not yet implemented") and the list has no element
    afterwards. *)
Lemma push_back_fails_though_allocation_would_not :
  allocation_fails (alloc fresh) = false
  /\ push_back 5 fresh = (Throws (logic_error "Not yet implemented"), fresh)
  /\ size (snd (push_back 5 fresh)) = 0%N.
Proof. repeat split. Qed.

(** C7, the claim on the code: splicing the list 10, 20 into the
    default-constructed list throws; the source still has its two elements
    and the destination has none.  Splicing one default-constructed list
    into another throws as well. *)
Lemma splice_leaves_other_full :
  spec_valid two_elements [64; 32] = true
  /\ splice (end_const fresh) (fresh, two_elements)
     = (Throws (logic_error "Not yet implemented"), (fresh, two_elements))
  /\ empty (snd (snd (splice (end_const fresh) (fresh, two_elements)))) = false
  /\ size (fst (snd (splice (end_const fresh) (fresh, two_elements)))) = 0%N
  /\ fst (splice (end_const fresh) (fresh, (xorlist_ctor plenty plenty 512 : xorlist Z)))
     = Throws (logic_error "Not yet implemented").
Proof. repeat split. Qed.



(** src/xorlist.ixx: [reverse] throws under noexcept. *)
Lemma ixx_reverse_terminates (l : xorlist Z) : Ixx.reverse l = (Terminated, l).
Proof. reflexivity. Qed.


End Examples.

(** ** Further properties of the interface *)

Section InterfaceProperties.
Context {T : Type} `{EqDecision T} `{Element T} `{Layout}.

Lemma load_store_other a a' n (l : xorlist T) :
  a' <> a -> load (store a n l) a' = load l a'.
Proof.
  intros Hne. unfold store.
  destruct (Z.eqb_spec a (this_end l)) as [Ea|Ea]; unfold load; simpl;
    destruct (Z.eqb_spec a' (this_end l)) as [Ea'|Ea']; try reflexivity;
    try congruence.
  apply lookup_insert_ne. congruence.
Qed.

Lemma store_loaded a n (l : xorlist T) :
  load l a = Some n -> store a n l = l.
Proof.
  unfold load, store, set_end, set_nodes.
  destruct (a =? this_end l); intros Hl.
  - injection Hl as <-. destruct l; reflexivity.
  - rewrite (insert_id _ _ _ Hl). destruct l; reflexivity.
Qed.

Lemma write_link_live a v n (l : xorlist T) :
  load l a = Some n ->
  write_link a v l = (Normal tt, store a (mk_node v (_value n)) l).
Proof. intros Hl. unfold write_link, bind, read. rewrite Hl. reflexivity. Qed.

Lemma const_begin_not_end (l : xorlist T) :
  const_iterator.eqb (begin_const l) (end_const l) = false.
Proof.
  pose proof sizeof_T_pos. unfold const_iterator.eqb; simpl.
  apply Z.eqb_neq. lia.
Qed.

Lemma remove_if_returns_zero (fuel : nat) (p : T -> bool) (tmp : Z) (l : xorlist T) :
  remove_if fuel p tmp l = (Normal 0%N, l).
Proof.
  unfold remove_if. rewrite begin_is_end.
  assert (Hloop : forall s, remove_if_loop fuel p (end_ l) (end_ l) s = (Normal tt, s)).
  { intros s. destruct fuel; simpl; rewrite iterator_eqb_refl; reflexivity. }
  rewrite Hloop. rewrite clear_of_empty by reflexivity. reflexivity.
Qed.


Lemma assign_range_throws (rng : list T) (l : xorlist T) :
  assign_range rng l = (Throws not_yet_implemented, l).
Proof.
  assert (Hcopy : assign_copy_loop rng (end_ l) (end_ l) l
                  = (Normal (rng, end_ l), l)).
  { destruct rng; simpl; [reflexivity|]. rewrite iterator_eqb_refl. reflexivity. }
  unfold assign_range. rewrite begin_is_end.
  rewrite (bind_normal _ _ _ _ _ Hcopy). simpl.
  rewrite iterator_eqb_refl. reflexivity.
Qed.

Lemma assign_throws (count : N) (value : T) (l : xorlist T) :
  assign count value l = (Throws not_yet_implemented, l).
Proof.
  assert (Hfill : forall c, assign_fill_loop c value (end_ l) (end_ l) l
                            = (Normal (c, end_ l), l)).
  { intros [|c]; simpl; [reflexivity|]. rewrite iterator_eqb_refl. reflexivity. }
  unfold assign. rewrite begin_is_end.
  rewrite (bind_normal _ _ _ _ _ (Hfill _)). simpl.
  rewrite iterator_eqb_refl. reflexivity.
Qed.


Lemma copy_ctor_outcome
      (fuel : nat) (other : xorlist T) (a na : Allocator) (addr : Z) :
  (fst (xorlist_copy_ctor fuel other a na addr) = Throws not_yet_implemented
   \/ fst (xorlist_copy_ctor fuel other a na addr) = Undefined)
  /\ snd (xorlist_copy_ctor fuel other a na addr) = xorlist_ctor a na addr.
Proof.
  unfold xorlist_copy_ctor.
  destruct fuel; simpl; rewrite const_begin_not_end;
    unfold bind, lift, const_value_at;
    destruct (load other (const_iterator.ptr (begin_const other)));
    simpl; (split; [tauto|reflexivity]).
Qed.

Lemma move_ctor_outcome
      (nothrow_move : bool) (other : xorlist T) (a na : Allocator) (addr : Z) :
  xorlist_move_ctor nothrow_move other a na addr
  = (if nothrow_move then Terminated else Throws not_yet_implemented,
     (xorlist_ctor a na addr, other)).
Proof.
  unfold xorlist_move_ctor, noexcept_, splice, throw.
  destruct nothrow_move; reflexivity.
Qed.



(** X15.  [__unlink_nodes(f, b)] on two live nodes returns, leaves in each
    of the two its own address as link, and changes nothing else: not
    their values, not any other node, not the count.  Done again, it
    changes nothing. *)
Theorem unlink_nodes_only_rewrites_two_links
        (l : xorlist T) (f b : Z) (nf nb : _node T) :
  load l f = Some nf ->
  load l b = Some nb ->
  fst (__unlink_nodes f b l) = Normal tt
  /\ load (snd (__unlink_nodes f b l)) f = Some (mk_node f (_value nf))
  /\ load (snd (__unlink_nodes f b l)) b = Some (mk_node b (_value nb))
  /\ (forall a, a <> f -> a <> b -> load (snd (__unlink_nodes f b l)) a = load l a)
  /\ _size (snd (__unlink_nodes f b l)) = _size l
  /\ this_end (snd (__unlink_nodes f b l)) = this_end l
  /\ __unlink_nodes f b (snd (__unlink_nodes f b l))
     = (Normal tt, snd (__unlink_nodes f b l)).
Proof.
  intros Hf Hb.
  set (l1 := store f (mk_node f (_value nf)) l).
  assert (Hb1 : load l1 b = Some (mk_node (if b =? f then f else _link nb) (_value nb))).
  { unfold l1. destruct (Z.eqb_spec b f) as [->|Hne].
    - rewrite load_store_same. rewrite Hf in Hb. injection Hb as ->. reflexivity.
    - rewrite load_store_other by exact Hne. rewrite Hb. destruct nb; reflexivity. }
  set (l2 := store b (mk_node b (_value nb)) l1).
  assert (Hrun : __unlink_nodes f b l = (Normal tt, l2)).
  { unfold __unlink_nodes.
    rewrite (bind_normal _ _ _ _ _ (write_link_live f f nf l Hf)).
    fold l1. rewrite (write_link_live b b _ l1 Hb1). reflexivity. }
  assert (Hf2 : load l2 f = Some (mk_node f (_value nf))).
  { unfold l2. destruct (Z.eqb_spec f b) as [->|Hne].
    - rewrite load_store_same. rewrite Hf in Hb. injection Hb as ->. reflexivity.
    - rewrite load_store_other by exact Hne. unfold l1. apply load_store_same. }
  assert (Hb2 : load l2 b = Some (mk_node b (_value nb))).
  { unfold l2. apply load_store_same. }
  rewrite Hrun. simpl fst. simpl snd.
  split; [reflexivity|]. split; [exact Hf2|]. split; [exact Hb2|].
  split.
  { intros a0 Haf Hab. unfold l2, l1.
    rewrite !load_store_other by assumption. reflexivity. }
  split.
  { unfold l2, l1, store.
    destruct (b =? this_end _); destruct (f =? this_end l); reflexivity. }
  split.
  { unfold l2, l1. rewrite !this_end_store. reflexivity. }
  unfold __unlink_nodes.
  rewrite (bind_normal _ _ _ _ _ (write_link_live f f _ l2 Hf2)).
  simpl _value. rewrite (store_loaded f _ l2 Hf2).
  rewrite (write_link_live b b _ l2 Hb2).
  simpl _value. rewrite (store_loaded b _ l2 Hb2). reflexivity.
Qed.

Lemma exec_call_on_empty (c : call T) (l : xorlist T) :
  _size l = 0%N -> snd (exec_call c l) = l.
Proof.
  intros Hs. destruct c; cbn [exec_call].
  - exact (exec_on_empty o l Hs).
  - rewrite assign_throws. reflexivity.
  - rewrite assign_range_throws. reflexivity.
  - unfold assign_ilist. rewrite assign_range_throws. reflexivity.
  - unfold operator_assign_ilist, assign_ilist.
    rewrite assign_range_throws. reflexivity.
  - unfold discard, bind. rewrite remove_if_returns_zero. reflexivity.
  - unfold discard, bind, erase_if. rewrite remove_if_returns_zero. reflexivity.
  - unfold discard, bind. rewrite unique_pred_returns_zero. reflexivity.
  - reflexivity.
  - reflexivity.
  - reflexivity.
  - reflexivity.
Qed.

(** X18.  Whatever a program does with the constructors (default, filling,
    from an initializer list, copy, move) and with the member functions of
    [op] and [call] (assign, remove_if, erase_if, unique with a predicate
    and merge added), every list it holds is as the default constructor
    leaves it: no elements, count 0, no node, the sentinel linked to
    itself.  Every call leaves such a list as it was. *)
Theorem wider_interface_never_leaves_the_empty_list (l : xorlist T) :
  reachable_wide l ->
  (exists a na addr, addr <> 0 /\ l = xorlist_ctor a na addr)
  /\ _size l = 0%N
  /\ nodes l = ∅
  /\ _link (_end l) = this_end l
  /\ (forall c, snd (exec_call c l) = l).
Proof.
  intros Hl.
  assert (Hshape : exists a na addr, addr <> 0 /\ l = xorlist_ctor a na addr).
  { induction Hl as [a na addr Haddr
                    |count value a na addr l Haddr Hrun
                    |init a na addr l Haddr Hrun
                    |fuel other a na addr l Haddr Hother IH Hrun
                    |nothrow_move other a na addr l other' Haddr Hother IH Hrun
                    |c l r l' Hl IH Hrun Hback].
    - exists a, na, addr. split; [exact Haddr|reflexivity].
    - exists a, na, addr. split; [exact Haddr|].
      unfold xorlist_ctor_fill in Hrun.
      destruct (N.to_nat count); cbn [fill_loop] in Hrun.
      + unfold ret in Hrun. congruence.
      + unfold bind, push_back, throw in Hrun. discriminate Hrun.
    - exists a, na, addr. split; [exact Haddr|].
      unfold xorlist_ctor_ilist in Hrun.
      destruct init; cbn [init_loop] in Hrun.
      + unfold ret in Hrun. congruence.
      + unfold bind, push_back, throw in Hrun. discriminate Hrun.
    - exfalso.
      destruct (copy_ctor_outcome fuel other a na addr) as [[Hc|Hc] _];
        rewrite Hrun in Hc; discriminate Hc.
    - exfalso. rewrite move_ctor_outcome in Hrun.
      destruct nothrow_move; discriminate Hrun.
    - destruct IH as (a & na & addr & Haddr & ->).
      exists a, na, addr. split; [exact Haddr|].
      pose proof (exec_call_on_empty c (xorlist_ctor a na addr) eq_refl) as Hkeep.
      rewrite Hrun in Hkeep. exact Hkeep. }
  split; [exact Hshape|].
  destruct Hshape as (a & na & addr & Haddr & ->).
  split; [reflexivity|]. split; [reflexivity|]. split; [reflexivity|].
  intros c. apply exec_call_on_empty. reflexivity.
Qed.

Lemma foldr_delete_commute (a : Z) (addrs : list Z) (m : gmap Z (_node T)) :
  foldr delete (delete a m) addrs = delete a (foldr delete m addrs).
Proof.
  induction addrs as [|b addrs IH]; simpl; [reflexivity|].
  rewrite IH. apply delete_delete.
Qed.

Lemma next_chain_after_delete (a : Z) (l : xorlist T) (addrs : list Z) (stop : Z) :
  a ∉ addrs ->
  next_chain (set_nodes (delete a (nodes l)) l) addrs stop
  = next_chain l addrs stop.
Proof.
  induction addrs as [|b addrs IH]; intros Hnotin; [reflexivity|].
  apply not_elem_of_cons in Hnotin as [Hab Hrest].
  cbn [next_chain]. rewrite IH by exact Hrest.
  replace (this_end (set_nodes (delete a (nodes l)) l)) with (this_end l)
    by (destruct l; reflexivity).
  replace (nodes (set_nodes (delete a (nodes l)) l) !! b) with (nodes l !! b);
    [reflexivity|].
  destruct l; simpl. symmetry. apply lookup_delete_ne. exact Hab.
Qed.

(** X19.  The loop of [clear] by itself, on nodes that are chained by plain
    next-addresses from [__f] to [__l] and are pairwise distinct, returns
    after one round per node, gives back to the allocator exactly the nodes
    of the chain, each once, and leaves every other node, the sentinel and
    the count as they were. *)
Theorem clear_loop_frees_exactly_the_chain
        (addrs : list Z) (stop : Z) (fuel : nat) (l : xorlist T) :
  next_chain l addrs stop = true ->
  NoDup addrs ->
  (length addrs <= fuel)%nat ->
  fst (clear_loop fuel (hd stop addrs) stop l) = Normal tt
  /\ nodes (snd (clear_loop fuel (hd stop addrs) stop l))
     = foldr delete (nodes l) addrs
  /\ _end (snd (clear_loop fuel (hd stop addrs) stop l)) = _end l
  /\ this_end (snd (clear_loop fuel (hd stop addrs) stop l)) = this_end l
  /\ _size (snd (clear_loop fuel (hd stop addrs) stop l)) = _size l.
Proof.
  revert fuel l. induction addrs as [|a rest IH]; intros fuel l Hchain Hnodup Hfuel.
  - simpl hd. destruct fuel; simpl; rewrite Z.eqb_refl; repeat split.
  - destruct fuel as [|fuel]; [simpl in Hfuel; lia|].
    cbn [next_chain] in Hchain.
    apply andb_prop in Hchain as [Hchain Hrest].
    apply andb_prop in Hchain as [Hchain Hlink].
    apply andb_prop in Hchain as [Hend Hstop].
    apply negb_true_iff in Hend, Hstop.
    destruct (nodes l !! a) as [n|] eqn:Hn; [|discriminate Hlink].
    apply Z.eqb_eq in Hlink.
    apply NoDup_cons in Hnodup as [Hnotin Hnodup].
    simpl hd. cbn [clear_loop]. rewrite Hstop.
    assert (Hread : read a l = (Normal n, l)).
    { unfold read, load. rewrite Hend, Hn. reflexivity. }
    rewrite (bind_normal _ _ _ _ _ Hread).
    assert (Hfree : deallocate a l = (Normal tt, set_nodes (delete a (nodes l)) l)).
    { unfold deallocate. rewrite Hn. reflexivity. }
    rewrite (bind_normal _ _ _ _ _ Hfree).
    rewrite Hlink.
    set (l1 := set_nodes (delete a (nodes l)) l).
    assert (Hchain1 : next_chain l1 rest stop = true).
    { unfold l1. rewrite next_chain_after_delete by exact Hnotin. exact Hrest. }
    simpl in Hfuel.
    destruct (IH fuel l1 Hchain1 Hnodup ltac:(lia)) as (H1 & H2 & H3 & H4 & H5).
    split; [exact H1|]. split.
    { rewrite H2. unfold l1. simpl foldr.
      replace (nodes (set_nodes (delete a (nodes l)) l)) with (delete a (nodes l))
        by (destruct l; reflexivity).
      apply foldr_delete_commute. }
    split; [rewrite H3; unfold l1; destruct l; reflexivity|].
    split; [rewrite H4; unfold l1; destruct l; reflexivity|].
    rewrite H5; unfold l1; destruct l; reflexivity.
Qed.

Lemma store_store a n n' (l : xorlist T) :
  store a n (store a n' l) = store a n l.
Proof.
  unfold store. destruct (a =? this_end l) eqn:E.
  - replace (this_end (set_end n' l)) with (this_end l) by (destruct l; reflexivity).
    rewrite E. destruct l; reflexivity.
  - replace (this_end (set_nodes (<[a:=n']> (nodes l)) l)) with (this_end l)
      by (destruct l; reflexivity).
    rewrite E. destruct l; simpl. unfold set_nodes; simpl.
    rewrite insert_insert_eq. reflexivity.
Qed.

Lemma write_value_live a v n (l : xorlist T) :
  load l a = Some n ->
  write_value a v l = (Normal tt, store a (mk_node (_link n) v) l).
Proof. intros Hl. unfold write_value, bind, read. rewrite Hl. reflexivity. Qed.

Lemma post_decr_live a n (l : xorlist T) :
  load l a = Some n ->
  post_decr a l
  = (Normal (_value n), store a (mk_node (_link n) (decr (_value n))) l).
Proof.
  intros Hl. unfold post_decr.
  assert (Hread : read a l = (Normal n, l)) by (unfold read; rewrite Hl; reflexivity).
  rewrite (bind_normal _ _ _ _ _ Hread).
  rewrite (bind_normal _ _ _ _ _ (write_value_live a _ n l Hl)).
  reflexivity.
Qed.

Lemma post_incr_live a n (l : xorlist T) :
  load l a = Some n ->
  post_incr a l
  = (Normal (_value n), store a (mk_node (_link n) (incr (_value n))) l).
Proof.
  intros Hl. unfold post_incr.
  assert (Hread : read a l = (Normal n, l)) by (unfold read; rewrite Hl; reflexivity).
  rewrite (bind_normal _ _ _ _ _ Hread).
  rewrite (bind_normal _ _ _ _ _ (write_value_live a _ n l Hl)).
  reflexivity.
Qed.

Lemma reverse_round_live a n (l : xorlist T) :
  (forall v : T, incr (decr v) = v) ->
  load l a = Some n ->
  (swap_post_decr_incr a ;; assign_post_decr a) l = (Normal tt, l).
Proof.
  intros Hid Hl.
  assert (Hswap : swap_post_decr_incr a l = (Normal tt, l)).
  { unfold swap_post_decr_incr.
    rewrite (bind_normal _ _ _ _ _ (post_decr_live a n l Hl)).
    set (l1 := store a (mk_node (_link n) (decr (_value n))) l).
    assert (Hl1 : load l1 a = Some (mk_node (_link n) (decr (_value n))))
      by apply load_store_same.
    rewrite (bind_normal _ _ _ _ _ (post_incr_live a _ l1 Hl1)).
    simpl _link. simpl _value. rewrite Hid. unfold l1. rewrite store_store.
    replace (mk_node (_link n) (_value n)) with n by (destruct n; reflexivity).
    rewrite (store_loaded a n l Hl). reflexivity. }
  rewrite (bind_normal _ _ _ _ _ Hswap).
  unfold assign_post_decr.
  rewrite (bind_normal _ _ _ _ _ (post_decr_live a n l Hl)).
  set (l1 := store a (mk_node (_link n) (decr (_value n))) l).
  assert (Hl1 : load l1 a = Some (mk_node (_link n) (decr (_value n))))
    by apply load_store_same.
  rewrite (write_value_live a _ _ l1 Hl1).
  simpl _link. unfold l1. rewrite store_store.
  replace (mk_node (_link n) (_value n)) with n by (destruct n; reflexivity).
  rewrite (store_loaded a n l Hl). reflexivity.
Qed.

(** X20.  The loop of [reverse] has no step that moves [i]: entered at an
    element whose value differs from the sentinel's, for an element type
    whose ++ undoes --, each round leaves the list and [i] as they were, so
    the loop never ends, whatever the fuel. *)
Theorem reverse_loop_never_advances
        (fuel : nat) (i : iterator.t) (ni : _node T) (l : xorlist T) :
  (forall v : T, incr (decr v) = v) ->
  load l (iterator.ptr i) = Some ni ->
  _value ni <> _value (_end l) ->
  reverse_loop fuel i (end_ l) l = (OutOfFuel, l).
Proof.
  intros Hid Hi Hne.
  assert (Hvi : deref i l = (Normal (_value ni), l)).
  { unfold deref, bind, read. rewrite Hi. reflexivity. }
  assert (Hve : deref (end_ l) l = (Normal (_value (_end l)), l)).
  { unfold deref, bind, read. simpl iterator.ptr. rewrite load_sentinel. reflexivity. }
  induction fuel as [|fuel IH]; cbn [reverse_loop];
    rewrite (bind_normal _ _ _ _ _ Hvi), (bind_normal _ _ _ _ _ Hve);
    rewrite bool_decide_eq_true_2 by exact Hne.
  - reflexivity.
  - pose proof (reverse_round_live (iterator.ptr i) ni l Hid Hi) as Hround.
    unfold bind in Hround |- *.
    destruct (swap_post_decr_incr (iterator.ptr i) l) as [[[]| | | |] l1];
      try discriminate Hround.
    destruct (assign_post_decr (iterator.ptr i) l1) as [[[]| | | |] l2];
      try discriminate Hround.
    injection Hround as ->. exact IH.
Qed.

End InterfaceProperties.

Section InterfaceExamples.
#[local] Existing Instance lp64_int.

(** X15 at the two elements of the list 10, 20. *)
Lemma unlink_two_elements :
  load two_elements 64 = Some (mk_node (Z.lxor 256 32) 10)
  /\ load two_elements 32 = Some (mk_node (Z.lxor 64 256) 20)
  /\ (fst (__unlink_nodes 64 32 two_elements) = Normal tt
      /\ load (snd (__unlink_nodes 64 32 two_elements)) 64
         = Some (mk_node 64 (_value (mk_node (Z.lxor 256 32) 10)))
      /\ load (snd (__unlink_nodes 64 32 two_elements)) 32
         = Some (mk_node 32 (_value (mk_node (Z.lxor 64 256) 20)))
      /\ (forall a, a <> 64 -> a <> 32 ->
                    load (snd (__unlink_nodes 64 32 two_elements)) a
                    = load two_elements a)
      /\ _size (snd (__unlink_nodes 64 32 two_elements)) = _size two_elements
      /\ this_end (snd (__unlink_nodes 64 32 two_elements)) = this_end two_elements
      /\ __unlink_nodes 64 32 (snd (__unlink_nodes 64 32 two_elements))
         = (Normal tt, snd (__unlink_nodes 64 32 two_elements))).
Proof.
  split; [reflexivity|]. split; [reflexivity|].
  exact (unlink_nodes_only_rewrites_two_links two_elements 64 32 _ _ eq_refl eq_refl).
Defined.

(** X18 at a default-constructed list. *)
Lemma wider_interface_on_default_list :
  reachable_wide fresh
  /\ ((exists a na addr, addr <> 0 /\ fresh = xorlist_ctor a na addr)
      /\ _size fresh = 0%N
      /\ nodes fresh = ∅
      /\ _link (_end fresh) = this_end fresh
      /\ (forall c, snd (exec_call c fresh) = fresh)).
Proof.
  assert (Hr : reachable_wide fresh) by (apply wide_ctor; discriminate).
  split; [exact Hr|].
  exact (wider_interface_never_leaves_the_empty_list fresh Hr).
Defined.

(** X19 on the chain 64, 32 that ends at the sentinel. *)
Lemma clear_loop_on_linked_two :
  next_chain linked_two [64; 32] 256 = true
  /\ NoDup [64; 32]
  /\ (length [64; 32] <= 5)%nat
  /\ (fst (clear_loop 5 (hd 256 [64; 32]) 256 linked_two) = Normal tt
      /\ nodes (snd (clear_loop 5 (hd 256 [64; 32]) 256 linked_two))
         = foldr delete (nodes linked_two) [64; 32]
      /\ _end (snd (clear_loop 5 (hd 256 [64; 32]) 256 linked_two)) = _end linked_two
      /\ this_end (snd (clear_loop 5 (hd 256 [64; 32]) 256 linked_two))
         = this_end linked_two
      /\ _size (snd (clear_loop 5 (hd 256 [64; 32]) 256 linked_two))
         = _size linked_two).
Proof.
  assert (Hchain : next_chain linked_two [64; 32] 256 = true) by reflexivity.
  assert (Hnodup : NoDup [64; 32]).
  { apply NoDup_cons. split; [|apply NoDup_singleton].
    intros Hin. apply list_elem_of_singleton in Hin. discriminate Hin. }
  assert (Hlen : (length [64; 32] <= 5)%nat) by (simpl; lia).
  split; [exact Hchain|]. split; [exact Hnodup|]. split; [exact Hlen|].
  exact (clear_loop_frees_exactly_the_chain [64; 32] 256 5 linked_two Hchain Hnodup Hlen).
Defined.

(** X20 at the first element of the list 10, 20. *)
Lemma reverse_loop_on_two_elements :
  (forall v : Z, incr (decr v) = v)
  /\ load two_elements (iterator.ptr (iterator.make 64))
     = Some (mk_node (Z.lxor 256 32) 10)
  /\ (_value (mk_node (Z.lxor 256 32) 10) =? _value (_end two_elements)) = false
  /\ reverse_loop 9 (iterator.make 64) (end_ two_elements) two_elements
     = (OutOfFuel, two_elements).
Proof.
  assert (Hne : _value (mk_node (Z.lxor 256 32) 10) <> _value (_end two_elements))
    by discriminate.
  split; [exact Z.succ_pred|]. split; [reflexivity|]. split; [reflexivity|].
  exact (reverse_loop_never_advances 9 (iterator.make 64) _ two_elements
           Z.succ_pred eq_refl Hne).
Defined.

End InterfaceExamples.
